(** * mlpack: the dictionary encoding policy

    A shallow embedding of [mlpack::data::DictionaryEncoding]
    (src/mlpack/core/data/encoding_policies/dictionary_encoding.hpp) and of
    its [PolicyTraits] specialisation, with the properties its
    specification states about them.

    The policy is a class of two static function templates over the matrix
    type.  Both only forward to the matrix: [InitMatrix] to
    [output.zeros(datasetSize, colSize)] and [Encode] to
    [output.at(row, col) = ele].  The matrix type is taken to be Armadillo's
    dense [arma::Mat<eT>], whose elements live in one buffer in column-major
    order; the element type [eT] stays a parameter.

    The same matrix carries [mlpack::ann::SoftplusFunction]
    (src/mlpack/methods/ann/activation_functions/softplus_function.hpp), whose
    [double] is the binary64 [float]; [std::exp], [std::log],
    [arma::trunc_exp] and [arma::trunc_log] are parameters. *)

From stdpp Require Import base option list gmap strings.
From Stdlib Require Import Floats.

(** [size_t].  Neither function does arithmetic on its [size_t] arguments,
    they are sizes and positions of an allocated buffer: natural numbers. *)
Abbreviation size_t := nat (only parsing).

(** ** Element types

    [MatType::elem_type]: what a cell holds.  [elem_zero] is the value
    [zeros] fills with, [elem_of_size_t] the implicit conversion that the
    assignment [output.at(row, col) = ele] applies to the [size_t] on its
    right. *)
Class ElemType (eT : Type) := {
  elem_zero : eT;
  elem_of_size_t : size_t → eT
}.

(** [arma::Mat<size_t>] (Armadillo's [uword] on 64-bit builds): a cell holds
    a [size_t], the conversion is the identity. *)
#[export] Instance uword_ElemType : ElemType size_t := {|
  elem_zero := 0;
  elem_of_size_t := λ ele, ele
|}.

(** ** Armadillo's dense matrix *)
Module arma.

(** [arma::Mat<eT>]: the two dimensions and the element buffer [mem], which
    stores column after column, so that cell [(r, c)] is [mem[r + c * n_rows]]. *)
Record Mat (eT : Type) : Type := mkMat {
  n_rows : size_t;
  n_cols : size_t;
  mem : list eT
}.
Arguments mkMat {eT} _ _ _.
Arguments n_rows {eT} _.
Arguments n_cols {eT} _.
Arguments mem {eT} _.

Section dense.
Context {eT : Type} `{!ElemType eT}.

(** [n_elem]: the number of cells. *)
Definition n_elem (m : Mat eT) : size_t := n_rows m * n_cols m.

(** The class invariant of [arma::Mat]: the buffer holds [n_elem] elements. *)
Definition Mat_ok (m : Mat eT) : Prop := length (mem m) = n_elem m.

#[export] Instance Mat_ok_dec (m : Mat eT) : Decision (Mat_ok m) :=
  decide (length (mem m) = n_elem m).

(** A default-constructed matrix, [MatType output;]. *)
Definition empty : Mat eT := mkMat 0 0 [].

(** [m.zeros(in_rows, in_cols)]: the matrix is resized, whatever it held
    before, and every element is set to zero. *)
Definition zeros (m : Mat eT) (in_rows in_cols : size_t) : Mat eT :=
  mkMat in_rows in_cols (replicate (in_rows * in_cols) elem_zero).

(** The position in [mem] that [at(in_row, in_col)] addresses. *)
Definition at_index (m : Mat eT) (in_row in_col : size_t) : size_t :=
  in_row + in_col * n_rows m.

(** Reading [m.at(in_row, in_col)]. *)
Definition at_ (m : Mat eT) (in_row in_col : size_t) : option eT :=
  mem m !! at_index m in_row in_col.

(** Row [r] of the matrix, read cell by cell from column 0 on, and the
    matrix as the list of its rows. *)
Definition row (m : Mat eT) (r : size_t) : option (list eT) :=
  mapM (at_ m r) (seq 0 (n_cols m)).
Definition rows (m : Mat eT) : option (list (list eT)) :=
  mapM (row m) (seq 0 (n_rows m)).

(** [m.at(in_row, in_col) = v].  Armadillo's [at] checks no bounds: it is
    [mem[in_row + in_col * n_rows]].  A position past the end of the buffer
    is a write outside the allocation, which C++ leaves undefined: [None]. *)
Definition at_put (m : Mat eT) (in_row in_col : size_t) (v : eT) : option (Mat eT) :=
  let i := at_index m in_row in_col in
  if decide (i < length (mem m))
  then Some (mkMat (n_rows m) (n_cols m) (<[i := v]> (mem m)))
  else None.

End dense.
End arma.

(** ** The policy *)
Module DictionaryEncoding.

(** The class itself has no data member: it only names the policy. *)
Inductive t : Type := policy.

Section policy.
Context {eT : Type} `{!ElemType eT}.

(** [InitMatrix(output, datasetSize, colSize, mappingsSize)]:
    [output.zeros(datasetSize, colSize)].  The last parameter has no name in
    the source. *)
Definition InitMatrix (output : arma.Mat eT)
    (datasetSize colSize mappingsSize : size_t) : arma.Mat eT :=
  arma.zeros output datasetSize colSize.

(** [Encode(ele, output, row, col)]: [output.at(row, col) = ele]. *)
Definition Encode (ele : size_t) (output : arma.Mat eT) (row col : size_t)
    : option (arma.Mat eT) :=
  arma.at_put output row col (elem_of_size_t ele).

(** The cell that the call [(ele, row, col)] names lies in the matrix. *)
Definition call_in_bounds (output : arma.Mat eT) (call : size_t * size_t * size_t) : Prop :=
  call.1.2 < arma.n_rows output ∧ call.2 < arma.n_cols output.

#[export] Instance call_in_bounds_dec output call : Decision (call_in_bounds output call) :=
  decide (call.1.2 < arma.n_rows output ∧ call.2 < arma.n_cols output).

(** A run of [Encode] calls on the same matrix, each given as
    [(ele, row, col)], in order; it stops at the first undefined one. *)
Fixpoint EncodeAll (calls : list (size_t * size_t * size_t)) (output : arma.Mat eT)
    : option (arma.Mat eT) :=
  match calls with
  | [] => Some output
  | (ele, row, col) :: calls' =>
      output' ← Encode ele output row col; EncodeAll calls' output'
  end.

End policy.
End DictionaryEncoding.

(** ** Policy traits *)

(** [template<class Policy> struct PolicyTraits]: three static constants. *)
Class PolicyTraits (Policy : Type) := {
  isSinglePass : bool;
  outputWithNoPadding : bool;
  isMultiPass : bool
}.
Arguments isSinglePass Policy {_}.
Arguments outputWithNoPadding Policy {_}.
Arguments isMultiPass Policy {_}.

(** [template<> struct PolicyTraits<DictionaryEncoding>]. *)
#[export] Instance DictionaryEncoding_PolicyTraits : PolicyTraits DictionaryEncoding.t := {|
  isSinglePass := true;
  outputWithNoPadding := true;
  isMultiPass := false
|}.

(** ** The dictionary and the encoding driver

    Their code is not among the sources (only the policy is): both are
    written down from sections 3, 4.1, 4.4 and 7 of the specification. *)

(** Modelled from the spec: the error kinds of section 7. *)
Inductive Error : Type :=
  | InvalidConfiguration
  | NotFoundError
  | UnsupportedPolicyCombination.

(** Modelled from the spec: the Dictionary of section 3, whose code is
    missing from the sources: a mapping from token to index, with the base
    that the first index takes. *)
Record Dictionary (Token : Type) `{Countable Token} : Type := mkDictionary {
  base : size_t;
  mapping : gmap Token size_t
}.
Arguments mkDictionary {Token _ _} _ _.
Arguments base {Token _ _} _.
Arguments mapping {Token _ _} _.

Section dictionary.
Context {Token : Type} `{Countable Token}.

(** Modelled from the spec: the dictionary at the start of a session (its
    code is missing from the sources), created empty. *)
Definition Dictionary_new (base : size_t) : Dictionary Token :=
  mkDictionary base ∅.

(** Modelled from the spec: [Size() -> count] of section 4.1 (code missing
    from the sources), the number of distinct tokens seen so far. *)
Definition Size (dict : Dictionary Token) : size_t := size (mapping dict).

(** Modelled from the spec: [GetOrAssign(token) -> index] of section 4.1
    (code missing from the sources): the existing index of a token seen
    before, otherwise the next contiguous index, which the token then keeps. *)
Definition GetOrAssign (token : Token) (dict : Dictionary Token)
    : size_t * Dictionary Token :=
  match mapping dict !! token with
  | Some index => (index, dict)
  | None =>
      let index := base dict + Size dict in
      (index, mkDictionary (base dict) (<[token := index]> (mapping dict)))
  end.

(** Modelled from the spec: [TokenAt(index) -> token] of section 4.1 (code
    missing from the sources), the reverse lookup: a token that the mapping
    sends to [index], [NotFoundError] when there is none. *)
Definition TokenAt (index : size_t) (dict : Dictionary Token) : Error + Token :=
  match filter (λ entry, entry.2 = index) (map_to_list (mapping dict)) with
  | entry :: _ => inr entry.1
  | [] => inl NotFoundError
  end.

(** Modelled from the spec: an encoding session as the dictionary sees it
    (code missing from the sources): [GetOrAssign] on each token in order,
    collecting the index each call returns. *)
Fixpoint GetOrAssignAll (tokens : list Token) (dict : Dictionary Token)
    : list size_t * Dictionary Token :=
  match tokens with
  | [] => ([], dict)
  | token :: tokens' =>
      let '(index, dict') := GetOrAssign token dict in
      let '(indices, dict'') := GetOrAssignAll tokens' dict' in
      (index :: indices, dict'')
  end.

(** Modelled from the spec: the invariant of section 3 (dictionary code
    missing from the sources): every index lies in the contiguous range of
    [Size] indices that starts at the base, and no index is used twice. *)
Definition Dictionary_ok (dict : Dictionary Token) : Prop :=
  (∀ token index, mapping dict !! token = Some index →
     base dict ≤ index < base dict + Size dict) ∧
  (∀ token1 token2 index,
     mapping dict !! token1 = Some index → mapping dict !! token2 = Some index →
     token1 = token2).

End dictionary.

Section driver.
Context {Token : Type} `{Countable Token} {eT : Type} `{!ElemType eT}.

(** Modelled from the spec: step 4 of section 4.4 for one sequence (the
    driver's code is missing from the sources): for each token in order,
    [GetOrAssign] and then the policy's [Encode] at [(row, col)], [col]
    being the token's position in the sequence.  A write outside the
    allocated matrix is the spec's [InvalidConfiguration]. *)
Fixpoint EncodeSequence (tokens : list Token) (row col : size_t)
    (output : arma.Mat eT) (dict : Dictionary Token)
    : Error + (arma.Mat eT * Dictionary Token) :=
  match tokens with
  | [] => inr (output, dict)
  | token :: tokens' =>
      let '(index, dict') := GetOrAssign token dict in
      match DictionaryEncoding.Encode index output row col with
      | Some output' => EncodeSequence tokens' row (S col) output' dict'
      | None => inl InvalidConfiguration
      end
  end.

(** Modelled from the spec: step 4 of section 4.4 for the batch (driver
    code missing from the sources): every sequence in order, [row] being the
    sequence's position in the batch. *)
Fixpoint EncodeRows (batch : list (list Token)) (row : size_t)
    (output : arma.Mat eT) (dict : Dictionary Token)
    : Error + (arma.Mat eT * Dictionary Token) :=
  match batch with
  | [] => inr (output, dict)
  | tokens :: batch' =>
      match EncodeSequence tokens row 0 output dict with
      | inr (output', dict') => EncodeRows batch' (S row) output' dict'
      | inl e => inl e
      end
  end.

(** Modelled from the spec: the longest sequence of the batch, step 1 of
    section 4.4 (driver code missing from the sources). *)
Definition maxLength (batch : list (list Token)) : size_t :=
  max_list (length <$> batch).

(** Modelled from the spec: the pre-scan of a multi-pass policy, step 2 of
    section 4.4 (driver code missing from the sources): the dictionary is
    populated from every token before anything is allocated. *)
Definition PreScan (batch : list (list Token)) (dict : Dictionary Token)
    : Dictionary Token :=
  (GetOrAssignAll (concat batch) dict).2.

(** Modelled from the spec: one encoding session with the dictionary
    policy, steps 1 to 5 of section 4.4 (driver code missing from the
    sources).  [width] is the caller-supplied fixed width, when there is
    one; a width below the longest sequence is [InvalidConfiguration], and
    traits that are both or neither single-pass and multi-pass are
    [UnsupportedPolicyCombination]. *)
Definition StringEncoding (width : option size_t) (dict : Dictionary Token)
    (batch : list (list Token)) : Error + (arma.Mat eT * Dictionary Token) :=
  let single := isSinglePass DictionaryEncoding.t in
  let multi := isMultiPass DictionaryEncoding.t in
  if negb (xorb single multi) then inl UnsupportedPolicyCombination else
  let colSize := default (maxLength batch) width in
  if decide (colSize < maxLength batch) then inl InvalidConfiguration else
  let dict := if multi then PreScan batch dict else dict in
  let output :=
    DictionaryEncoding.InitMatrix arma.empty (length batch) colSize (Size dict) in
  EncodeRows batch 0 output dict.

End driver.

(** ** Runs of calls, cell by cell *)

(** The index carried by the last call of [calls] that names the cell
    [(row, col)], if one does. *)
Fixpoint last_written (calls : list (size_t * size_t * size_t)) (row col : size_t)
    : option size_t :=
  match calls with
  | [] => None
  | (ele, r, c) :: calls' =>
      match last_written calls' row col with
      | Some ele' => Some ele'
      | None => if decide ((r, c) = (row, col)) then Some ele else None
      end
  end.

(** ** Element access by position, loops and element-wise operations *)

(** [for (size_t i = 0; i < n; i++) body]: [for_from count i] runs the
    [count] iterations that start at [i]; an iteration without a result
    ends the loop without one. *)
Fixpoint for_from {St : Type} (count i : size_t) (body : size_t → St → option St)
    (s : St) : option St :=
  match count with
  | 0 => Some s
  | S count' => s' ← body i s; for_from count' (S i) body s'
  end.
Definition for_loop {St : Type} (n : size_t) (body : size_t → St → option St)
    (s : St) : option St :=
  for_from n 0 body s.

Section dense_elements.
Context {eT : Type}.

(** [m.set_size(in_rows, in_cols)]: the matrix takes the new dimensions.
    Armadillo leaves the elements unspecified (old memory may be kept, new
    memory is not initialised): [fresh i] is whatever position [i] of the
    buffer holds after the call. *)
Definition Mat_set_size (m : arma.Mat eT) (in_rows in_cols : size_t)
    (fresh : size_t → eT) : arma.Mat eT :=
  arma.mkMat in_rows in_cols (fresh <$> seq 0 (in_rows * in_cols)).

(** Reading [m(i)]: element [i] of the buffer.  Armadillo's [operator()]
    checks [i < n_elem] and raises an error otherwise (the check is compiled
    out by [ARMA_NO_DEBUG], the access is then undefined): [None]. *)
Definition Mat_elem (m : arma.Mat eT) (i : size_t) : option eT :=
  if decide (i < arma.n_elem m) then arma.mem m !! i else None.

(** [m(i) = v], with the same check. *)
Definition Mat_elem_put (m : arma.Mat eT) (i : size_t) (v : eT) : option (arma.Mat eT) :=
  if decide (i < arma.n_elem m ∧ i < length (arma.mem m))
  then Some (arma.mkMat (arma.n_rows m) (arma.n_cols m) (<[i := v]> (arma.mem m)))
  else None.

(** An element-wise operation ([-m], [arma::exp(m)], [1 + m], [1.0 / m]):
    a matrix of the same shape, [f] applied to every element. *)
Definition Mat_map (f : eT → eT) (m : arma.Mat eT) : arma.Mat eT :=
  arma.mkMat (arma.n_rows m) (arma.n_cols m) (f <$> arma.mem m).

End dense_elements.

(** ** The softplus activation function *)
Module SoftplusFunction.
Section softplus.

(** [std::exp] and [std::log] of the C++ library and Armadillo's
    [trunc_exp] and [trunc_log]: functions on [double] whose values the
    sources do not fix. *)
Variables (exp log trunc_exp trunc_log : float → float).

(** The default of the [threshold] parameter of both [Fn]. *)
Definition default_threshold : float := 40%float.

(** [static double Fn(const double x, const double threshold = 40.0)]:
    [if (x > threshold) return x; else return std::log(1 + std::exp(x));]. *)
Definition Fn (x threshold : float) : float :=
  if (threshold <? x)%float then x else log (1 + exp x)%float.

(** [static void Fn(const InputType& x, OutputType& y, const double threshold)]
    on two matrices of [double]: [y.set_size(arma::size(x))], then
    [for (size_t i = 0; i < x.n_elem; i++) y(i) = Fn(x(i), threshold);]. *)
Definition Fn_mat (x y : arma.Mat float) (threshold : float) (fresh : size_t → float)
    : option (arma.Mat float) :=
  let y := Mat_set_size y (arma.n_rows x) (arma.n_cols x) fresh in
  for_loop (arma.n_elem x)
    (λ i y, xi ← Mat_elem x i; Mat_elem_put y i (Fn xi threshold)) y.

(** [static double Deriv(const double y)]:
    [return 1.0 / (1 + std::exp(-y));]. *)
Definition Deriv (y : float) : float := (1 / (1 + exp (- y)))%float.

(** [static void Deriv(const InputType& y, OutputType& x)]:
    [x = 1.0 / (1 + arma::exp(-y));], each operation element-wise; the
    assignment replaces what [x] held. *)
Definition Deriv_mat (y x : arma.Mat float) : arma.Mat float :=
  Mat_map (λ v, 1 / v)%float
    (Mat_map (λ v, 1 + v)%float (Mat_map exp (Mat_map PrimFloat.opp y))).

(** [static double Inv(const double y)]:
    [return y > 0 ? arma::trunc_log(arma::trunc_exp(y) - 1) : 0;]. *)
Definition Inv (y : float) : float :=
  if (0 <? y)%float then trunc_log (trunc_exp y - 1)%float else 0%float.

(** [static void Inv(const InputType& y, OutputType& x)]:
    [x.set_size(arma::size(y))], then
    [for (size_t i = 0; i < y.n_elem; i++) x(i) = Inv(y(i));]. *)
Definition Inv_mat (y x : arma.Mat float) (fresh : size_t → float)
    : option (arma.Mat float) :=
  let x := Mat_set_size x (arma.n_rows y) (arma.n_cols y) fresh in
  for_loop (arma.n_elem y)
    (λ i x, yi ← Mat_elem y i; Mat_elem_put x i (Inv yi)) x.

End softplus.
End SoftplusFunction.

(** ** The overloads of [GetPrintableParam]

    src/mlpack/bindings/tests/get_printable_param.hpp declares five function
    templates [GetPrintableParam<T>(util::ParamData&)] that differ only in
    their [std::enable_if_t] parameters; their bodies are in another file. *)
Module GetPrintableParam.

(** What the declarations ask of the parameter type [T]:
    [arma::is_arma_type<T>::value], [util::IsStdVector<T>::value],
    [data::HasSerialize<T>::value] and
    [std::is_same_v<T, std::tuple<data::DatasetInfo, arma::mat>>]. *)
Record TypeTraits : Type := mkTypeTraits {
  is_arma_type : bool;
  IsStdVector : bool;
  HasSerialize : bool;
  is_DatasetInfo_mat_tuple : bool
}.

(** The five declarations, in the order of the file: an option, a vector
    option, a matrix option, a serializable class option, a mapped matrix
    option. *)
Inductive Overload : Type :=
  | PrintOption
  | PrintVector
  | PrintMatrix
  | PrintSerializable
  | PrintMapped.

Definition overloads : list Overload :=
  [PrintOption; PrintVector; PrintMatrix; PrintSerializable; PrintMapped].

(** The conjunction of the [enable_if_t] conditions of a declaration: the
    declaration takes part in overload resolution for [T] when it holds. *)
Definition enabled (T : TypeTraits) (o : Overload) : bool :=
  match o with
  | PrintOption =>
      negb (is_arma_type T) && negb (IsStdVector T) && negb (HasSerialize T)
      && negb (is_DatasetInfo_mat_tuple T)
  | PrintVector => IsStdVector T
  | PrintMatrix => is_arma_type T
  | PrintSerializable => negb (is_arma_type T) && HasSerialize T
  | PrintMapped => is_DatasetInfo_mat_tuple T
  end.

(** The call [GetPrintableParam<T>(data)]: the declarations enabled for
    [T] are equally good candidates, so the call selects a declaration when
    exactly one is enabled, and does not compile otherwise. *)
Definition candidates (T : TypeTraits) : list Overload :=
  filter (λ o, enabled T o = true) overloads.
Definition resolve (T : TypeTraits) : option Overload :=
  match candidates T with
  | [o] => Some o
  | _ => None
  end.

(** The kinds of parameter type that are at most one of a vector, an
    Armadillo type and the mapped tuple, and serializable only if they are
    neither a vector nor the tuple. *)
Definition one_kind (T : TypeTraits) : bool :=
  match is_arma_type T, IsStdVector T, is_DatasetInfo_mat_tuple T with
  | false, false, false => true
  | true, false, false => true
  | false, true, false => negb (HasSerialize T)
  | false, false, true => negb (HasSerialize T)
  | _, _, _ => false
  end.

End GetPrintableParam.

(** * Properties *)

(** ** The matrix *)
Section dense_facts.
Context {eT : Type} `{!ElemType eT}.
Implicit Types (m output : arma.Mat eT) (v : eT).

(** Inside the matrix, [at] addresses the buffer. *)
Lemma at_index_lt m r c :
  arma.Mat_ok m → r < arma.n_rows m → c < arma.n_cols m →
  arma.at_index m r c < length (arma.mem m).
Proof.
  unfold arma.Mat_ok, arma.n_elem, arma.at_index. intros -> Hr Hc.
  apply Nat.lt_le_trans with (arma.n_rows m + c * arma.n_rows m); [lia|].
  change (S c * arma.n_rows m ≤ arma.n_rows m * arma.n_cols m).
  rewrite (Nat.mul_comm (arma.n_rows m)). apply Nat.mul_le_mono_r. lia.
Qed.

(** Inside the matrix, two cells share a position only if they are the same
    cell: column-major addressing is injective. *)
Lemma at_index_inj m r c r' c' :
  r < arma.n_rows m → r' < arma.n_rows m →
  arma.at_index m r c = arma.at_index m r' c' → r = r' ∧ c = c'.
Proof.
  unfold arma.at_index. intros Hr Hr' Heq.
  assert (c = c') as ->; [|lia].
  destruct (Nat.lt_trichotomy c c') as [Hlt|[->|Hlt]]; [exfalso|done|exfalso].
  - assert (S c * arma.n_rows m ≤ c' * arma.n_rows m)
      by (apply Nat.mul_le_mono_r; lia).
    simpl in *. lia.
  - assert (S c' * arma.n_rows m ≤ c * arma.n_rows m)
      by (apply Nat.mul_le_mono_r; lia).
    simpl in *. lia.
Qed.

Lemma zeros_ok m r c : arma.Mat_ok (arma.zeros m r c).
Proof. unfold arma.Mat_ok, arma.n_elem. simpl. by rewrite length_replicate. Qed.

Lemma zeros_at m rows cols r c :
  r < rows → c < cols → arma.at_ (arma.zeros m rows cols) r c = Some elem_zero.
Proof.
  intros Hr Hc. unfold arma.at_.
  apply lookup_replicate_2.
  pose proof (at_index_lt (arma.zeros m rows cols) r c (zeros_ok m rows cols)) as Hlt.
  simpl in Hlt. rewrite length_replicate in Hlt. by apply Hlt.
Qed.

(** What a write that is defined does. *)
Lemma at_put_Some m r c v m' :
  arma.at_put m r c v = Some m' →
  arma.at_index m r c < length (arma.mem m) ∧
  m' = arma.mkMat (arma.n_rows m) (arma.n_cols m) (<[arma.at_index m r c := v]> (arma.mem m)).
Proof. unfold arma.at_put. case_decide; naive_solver. Qed.

Lemma at_put_in_bounds m r c v :
  arma.Mat_ok m → r < arma.n_rows m → c < arma.n_cols m →
  arma.at_put m r c v =
    Some (arma.mkMat (arma.n_rows m) (arma.n_cols m) (<[arma.at_index m r c := v]> (arma.mem m))).
Proof.
  intros Hok Hr Hc. unfold arma.at_put.
  rewrite decide_True; [done|]. by apply at_index_lt.
Qed.

Lemma at_put_ok m r c v m' :
  arma.Mat_ok m → arma.at_put m r c v = Some m' → arma.Mat_ok m'.
Proof.
  intros Hok [_ ->]%at_put_Some.
  unfold arma.Mat_ok, arma.n_elem in *. simpl. by rewrite length_insert.
Qed.

Lemma at_put_dims m r c v m' :
  arma.at_put m r c v = Some m' →
  arma.n_rows m' = arma.n_rows m ∧ arma.n_cols m' = arma.n_cols m.
Proof. by intros [_ ->]%at_put_Some. Qed.

Lemma at_put_at_eq m r c v m' :
  arma.at_put m r c v = Some m' → arma.at_ m' r c = Some v.
Proof.
  intros [Hlt ->]%at_put_Some. unfold arma.at_, arma.at_index. simpl.
  by apply list_lookup_insert_eq.
Qed.

Lemma at_put_at_ne m r c v m' r' c' :
  arma.at_put m r c v = Some m' →
  r < arma.n_rows m → r' < arma.n_rows m → (r', c') ≠ (r, c) →
  arma.at_ m' r' c' = arma.at_ m r' c'.
Proof.
  intros [Hlt ->]%at_put_Some Hr Hr' Hne. unfold arma.at_. simpl.
  apply list_lookup_insert_ne. intros Heq.
  apply at_index_inj in Heq as [-> ->]; done.
Qed.

End dense_facts.

(** ** A run of [Encode] calls *)
Section policy_facts.
Context {eT : Type} `{!ElemType eT}.
Implicit Types (output : arma.Mat eT) (calls : list (size_t * size_t * size_t)).

(** Calls that stay inside the matrix are all defined; they keep the
    invariant and the shape, and leave alone every cell none of them names. *)
Lemma EncodeAll_in_bounds calls output :
  arma.Mat_ok output → Forall (DictionaryEncoding.call_in_bounds output) calls →
  ∃ output',
    DictionaryEncoding.EncodeAll calls output = Some output' ∧
    arma.Mat_ok output' ∧
    arma.n_rows output' = arma.n_rows output ∧
    arma.n_cols output' = arma.n_cols output ∧
    ∀ r c, r < arma.n_rows output →
      (∀ ele, (ele, r, c) ∉ calls) →
      arma.at_ output' r c = arma.at_ output r c.
Proof.
  revert output. induction calls as [|[[ele row] col] calls IH]; intros output Hok Hall.
  { exists output. by repeat split. }
  apply Forall_cons in Hall as [[Hrow Hcol] Hall]. simpl in Hrow, Hcol.
  pose proof (at_put_in_bounds output row col (elem_of_size_t ele) Hok Hrow Hcol) as Hput.
  destruct (at_put_dims _ _ _ _ _ Hput) as [Hr Hc].
  pose proof (at_put_ok _ _ _ _ _ Hok Hput) as Hok'.
  destruct (IH _ Hok') as (output' & Hrun & Hok'' & Hr' & Hc' & Hframe).
  { eapply Forall_impl; [exact Hall|]. unfold DictionaryEncoding.call_in_bounds.
    intros call. rewrite Hr, Hc. done. }
  exists output'. simpl. unfold DictionaryEncoding.Encode. rewrite Hput. simpl.
  split; [exact Hrun|]. split; [exact Hok''|].
  split; [congruence|]. split; [congruence|].
  intros r c Hlt Hfree. rewrite Hframe.
  - eapply at_put_at_ne; [exact Hput|done|done|].
    intros [= -> ->]. apply (Hfree ele). by left.
  - by rewrite Hr.
  - intros ele' Hin. apply (Hfree ele'). by right.
Qed.

(** C1.  For every matrix [output], every index value [ele] and every
    in-bounds coordinate pair [(row, col)], [Encode(ele, output, row, col)]
    is defined and stores [ele] itself at cell [(row, col)]: the cell then
    reads [ele] converted to the element type by the assignment, nothing is
    added to it, scaled or looked up. *)
Theorem Encode_stores_index output ele row col :
  arma.Mat_ok output → row < arma.n_rows output → col < arma.n_cols output →
  ∃ output',
    DictionaryEncoding.Encode ele output row col = Some output' ∧
    arma.at_ output' row col = Some (elem_of_size_t ele).
Proof.
  intros Hok Hrow Hcol. unfold DictionaryEncoding.Encode.
  eexists. split; [by apply at_put_in_bounds|].
  unfold arma.at_. simpl. unfold arma.at_index at 1. simpl.
  apply list_lookup_insert_eq. by apply at_index_lt.
Qed.

(** C8, amended.  For every in-bounds coordinate pair [(row, col)],
    [Encode(ele, output, row, col)] modifies only the single cell
    [(row, col)]: the row and column dimensions are the same after the call
    as before it, and so is every other entry of [output].  (Outside the
    matrix the unchecked [at] addresses another cell or leaves the buffer.) *)
Theorem Encode_frame output ele row col :
  arma.Mat_ok output → row < arma.n_rows output → col < arma.n_cols output →
  ∃ output',
    DictionaryEncoding.Encode ele output row col = Some output' ∧
    arma.n_rows output' = arma.n_rows output ∧
    arma.n_cols output' = arma.n_cols output ∧
    ∀ r c, r < arma.n_rows output → c < arma.n_cols output →
      (r, c) ≠ (row, col) →
      arma.at_ output' r c = arma.at_ output r c.
Proof.
  intros Hok Hrow Hcol. unfold DictionaryEncoding.Encode.
  pose proof (at_put_in_bounds output row col (elem_of_size_t ele) Hok Hrow Hcol) as Hput.
  eexists. split; [exact Hput|].
  destruct (at_put_dims _ _ _ _ _ Hput) as [Hr Hc].
  split; [exact Hr|]. split; [exact Hc|].
  intros r c Hlt _ Hne. by eapply at_put_at_ne.
Qed.

(** C10.  [Encode] is idempotent and the last write wins: on every matrix,
    [Encode(ele, output, row, col)] twice in a row leaves [output] as one
    such call does, and [Encode(e1, output, row, col)] followed by
    [Encode(e2, output, row, col)] leaves it as [Encode(e2, output, row, col)]
    alone does (where the call is undefined, so is the pair of calls). *)
Theorem Encode_idempotent_last_write_wins output ele e1 e2 row col :
  (DictionaryEncoding.Encode ele output row col ≫=
     λ output', DictionaryEncoding.Encode ele output' row col) =
    DictionaryEncoding.Encode ele output row col ∧
  (DictionaryEncoding.Encode e1 output row col ≫=
     λ output', DictionaryEncoding.Encode e2 output' row col) =
    DictionaryEncoding.Encode e2 output row col.
Proof.
  assert (∀ a b,
    (DictionaryEncoding.Encode a output row col ≫=
       λ output', DictionaryEncoding.Encode b output' row col) =
      DictionaryEncoding.Encode b output row col) as Hlast; [|by split].
  intros a b. unfold DictionaryEncoding.Encode, arma.at_put.
  case_decide as Hlt; simpl; [|done].
  unfold arma.at_index at 1 3. simpl. fold (arma.at_index output row col).
  rewrite length_insert, decide_True by done.
  by rewrite list_insert_insert_eq.
Qed.

(** C5.  [InitMatrix] ignores its [mappingsSize] argument: two runs on the
    same [output], [datasetSize] and [colSize] that differ only in
    [mappingsSize] produce identical matrices. *)
Theorem InitMatrix_ignores_mappingsSize output datasetSize colSize mappingsSize1 mappingsSize2 :
  DictionaryEncoding.InitMatrix output datasetSize colSize mappingsSize1 =
  DictionaryEncoding.InitMatrix output datasetSize colSize mappingsSize2.
Proof. reflexivity. Qed.

(** C3.  After [InitMatrix] on a [datasetSize] x [colSize] output, followed
    by any run of [Encode] calls that touch, in each row [r], only the
    columns [0 .. len r - 1] of that row's sequence, every trailing cell
    [(r, c)] with [len r <= c < colSize] still holds the pad value 0.  (A
    row with [len r = colSize] has no trailing cell.) *)
Theorem padding_stays_zero output datasetSize colSize mappingsSize
    (len : size_t → size_t) calls :
  (∀ r, r < datasetSize → len r ≤ colSize) →
  Forall (λ call, call.1.2 < datasetSize ∧ call.2 < len call.1.2) calls →
  ∃ output',
    DictionaryEncoding.EncodeAll calls
      (DictionaryEncoding.InitMatrix output datasetSize colSize mappingsSize)
      = Some output' ∧
    ∀ r c, r < datasetSize → len r ≤ c → c < colSize →
      arma.at_ output' r c = Some elem_zero.
Proof.
  intros Hlen Hcalls. unfold DictionaryEncoding.InitMatrix.
  destruct (EncodeAll_in_bounds calls (arma.zeros output datasetSize colSize))
    as (output' & Hrun & _ & _ & _ & Hframe).
  - apply zeros_ok.
  - eapply Forall_impl; [exact Hcalls|].
    intros [[ele row] col] [Hrow Hcol]. simpl in *.
    split; simpl; [done|]. specialize (Hlen row Hrow). lia.
  - exists output'. split; [exact Hrun|].
    intros r c Hr Hc Hc'. rewrite Hframe.
    + by apply zeros_at.
    + done.
    + intros ele Hin.
      apply (proj1 (Forall_forall _ _) Hcalls) in Hin as [_ Hcol].
      simpl in Hcol. lia.
Qed.

End policy_facts.

(** ** The traits *)

(** C4.  Exactly one of the flags [isSinglePass] and [isMultiPass] of
    [PolicyTraits<DictionaryEncoding>] is true: they are not both true and
    not both false. *)
Theorem DictionaryEncoding_exactly_one_pass :
  xorb (isSinglePass DictionaryEncoding.t) (isMultiPass DictionaryEncoding.t) = true ∧
  ¬ (isSinglePass DictionaryEncoding.t = true ∧ isMultiPass DictionaryEncoding.t = true) ∧
  ¬ (isSinglePass DictionaryEncoding.t = false ∧ isMultiPass DictionaryEncoding.t = false).
Proof. split; [reflexivity|]. split; intros [Hs Hm]; discriminate. Qed.

(** C9.  The static trait [outputWithNoPadding] of
    [PolicyTraits<DictionaryEncoding>] is true. *)
Theorem DictionaryEncoding_outputWithNoPadding :
  outputWithNoPadding DictionaryEncoding.t = true.
Proof. reflexivity. Qed.

(** ** The dictionary *)
Section dictionary_facts.
Context {Token : Type} `{Countable Token}.
Implicit Types (dict : Dictionary Token) (token : Token) (tokens : list Token).

Lemma Dictionary_new_ok base0 : Dictionary_ok (Dictionary_new (Token := Token) base0).
Proof. split; intros *; simpl; by rewrite lookup_empty. Qed.

(** The index that [GetOrAssign] returns is the token's index from then on. *)
Lemma GetOrAssign_lookup token dict :
  mapping (GetOrAssign token dict).2 !! token = Some (GetOrAssign token dict).1.
Proof.
  unfold GetOrAssign. destruct (mapping dict !! token) eqn:Hlook; simpl; [done|].
  by rewrite lookup_insert_eq.
Qed.

(** No operation renumbers a token: what was assigned stays. *)
Lemma GetOrAssign_keeps token dict token' index :
  mapping dict !! token' = Some index →
  mapping (GetOrAssign token dict).2 !! token' = Some index.
Proof.
  intros Hold. unfold GetOrAssign.
  destruct (mapping dict !! token) eqn:Hlook; simpl; [done|].
  rewrite lookup_insert_ne; [done|]. intros ->. congruence.
Qed.

(** An entry of the dictionary after [GetOrAssign] was there before or is
    the one just returned. *)
Lemma GetOrAssign_entries token dict token' index :
  mapping (GetOrAssign token dict).2 !! token' = Some index →
  mapping dict !! token' = Some index ∨
  (token' = token ∧ index = (GetOrAssign token dict).1).
Proof.
  unfold GetOrAssign. destruct (mapping dict !! token) eqn:Hlook; simpl; [by left|].
  destruct (decide (token = token')) as [->|Hne].
  - rewrite lookup_insert_eq. intros [= <-]. by right.
  - rewrite lookup_insert_ne by done. by left.
Qed.

Lemma GetOrAssign_base token dict : base (GetOrAssign token dict).2 = base dict.
Proof. unfold GetOrAssign. by destruct (mapping dict !! token). Qed.

Lemma GetOrAssign_ok token dict :
  Dictionary_ok dict → Dictionary_ok (GetOrAssign token dict).2.
Proof.
  intros [Hrange Hinj]. unfold GetOrAssign.
  destruct (mapping dict !! token) eqn:Hlook; simpl; [by split|].
  unfold Dictionary_ok, Size in *. simpl.
  rewrite map_size_insert_None by done. split.
  - intros token' index.
    destruct (decide (token = token')) as [->|Hne].
    + rewrite lookup_insert_eq. intros [= <-]. lia.
    + rewrite lookup_insert_ne by done. intros Hold%Hrange. lia.
  - intros token1 token2 index.
    destruct (decide (token1 = token)) as [->|Hne1];
      destruct (decide (token2 = token)) as [->|Hne2]; [done|..].
    + rewrite lookup_insert_eq, lookup_insert_ne by done.
      intros [= <-] Hold%Hrange. lia.
    + rewrite lookup_insert_eq, lookup_insert_ne by done.
      intros Hold%Hrange [= <-]. lia.
    + rewrite !lookup_insert_ne by done. apply Hinj.
Qed.

(** Reverse lookup finds the token of an index that is in use. *)
Lemma TokenAt_assigned dict token index :
  Dictionary_ok dict → mapping dict !! token = Some index →
  TokenAt index dict = inr token.
Proof.
  intros [_ Hinj] Hlook. unfold TokenAt.
  destruct (filter _ _) as [|entry entries] eqn:Hfilter.
  - assert ((token, index) ∈ filter (λ entry : Token * nat, entry.2 = index)
              (map_to_list (mapping dict))) as Hin.
    { apply list_elem_of_filter. split; [done|]. by apply elem_of_map_to_list. }
    rewrite Hfilter in Hin. by apply elem_of_nil in Hin.
  - assert (entry ∈ filter (λ entry : Token * nat, entry.2 = index)
              (map_to_list (mapping dict))) as Hin.
    { rewrite Hfilter. by left. }
    apply list_elem_of_filter in Hin as [Hidx Hin].
    destruct entry as [token' index']. simpl in *. subst index'.
    apply elem_of_map_to_list in Hin. f_equal. by eapply Hinj.
Qed.

(** Reverse lookup fails on an index that no token has. *)
Lemma TokenAt_unassigned dict index :
  (∀ token, mapping dict !! token ≠ Some index) →
  TokenAt index dict = inl NotFoundError.
Proof.
  intros Hfree. unfold TokenAt.
  destruct (filter _ _) as [|[token index'] entries] eqn:Hfilter; [done|].
  assert ((token, index') ∈ filter (λ entry : Token * nat, entry.2 = index)
            (map_to_list (mapping dict))) as Hin.
  { rewrite Hfilter. by left. }
  apply list_elem_of_filter in Hin as [Hidx Hin]. simpl in Hidx. subst index'.
  apply elem_of_map_to_list in Hin. by destruct (Hfree token).
Qed.

(** A session: the invariant is kept, every call's index is the index of
    its token at the end, and the final entries are the initial ones and
    those the calls returned. *)
Lemma GetOrAssignAll_spec tokens dict indices dict' :
  Dictionary_ok dict → GetOrAssignAll tokens dict = (indices, dict') →
  Dictionary_ok dict' ∧
  (∀ token index, mapping dict !! token = Some index →
     mapping dict' !! token = Some index) ∧
  (∀ k token index, tokens !! k = Some token → indices !! k = Some index →
     mapping dict' !! token = Some index) ∧
  (∀ token index, mapping dict' !! token = Some index →
     mapping dict !! token = Some index ∨ index ∈ indices).
Proof.
  revert dict indices dict'.
  induction tokens as [|token tokens IH]; intros dict indices dict' Hok Hrun; simpl in Hrun.
  { injection Hrun as <- <-. split; [exact Hok|]. split; [done|]. split.
    - intros k token index Hk. by rewrite lookup_nil in Hk.
    - intros token index Hlook. by left. }
  destruct (GetOrAssign token dict) as [index1 dict1] eqn:Hstep.
  destruct (GetOrAssignAll tokens dict1) as [indices1 dict2] eqn:Hrest.
  injection Hrun as <- <-.
  pose proof (GetOrAssign_ok token dict Hok) as Hok1.
  pose proof (GetOrAssign_lookup token dict) as Hnew.
  rewrite Hstep in Hok1, Hnew. simpl in Hok1, Hnew.
  destruct (IH dict1 indices1 dict2 Hok1 Hrest) as (Hok2 & Hkeep & Hidx & Hfrom).
  split; [exact Hok2|]. split; [|split].
  - intros token' index Hold. apply Hkeep.
    pose proof (GetOrAssign_keeps token dict token' index Hold) as Hk.
    by rewrite Hstep in Hk.
  - intros [|k] token' index Htok Hind; simpl in *.
    + injection Htok as <-. injection Hind as <-. by apply Hkeep.
    + by eapply Hidx.
  - intros token' index [Hin1|Hin]%Hfrom; [|right; by right].
    pose proof (GetOrAssign_entries token dict token' index) as Hent.
    rewrite Hstep in Hent. simpl in Hent.
    destruct (Hent Hin1) as [Hold|[-> ->]]; [by left|right; by left].
Qed.

(** C7.  In an encoding session (a run of [GetOrAssign] calls on a
    dictionary created empty), [TokenAt] on an index that a call returned
    gives back the token of that call, and [TokenAt] fails with
    [NotFoundError] on every index that no call returned. *)
Theorem TokenAt_roundtrip base0 tokens indices dict :
  GetOrAssignAll tokens (Dictionary_new base0) = (indices, dict) →
  (∀ k token index, tokens !! k = Some token → indices !! k = Some index →
     TokenAt index dict = inr token) ∧
  (∀ index, index ∉ indices → TokenAt index dict = inl NotFoundError).
Proof.
  intros Hrun.
  destruct (GetOrAssignAll_spec tokens _ indices dict (Dictionary_new_ok base0) Hrun)
    as (Hok & _ & Hidx & Hfrom).
  split.
  - intros k token index Htok Hind. apply TokenAt_assigned; [done|]. by eapply Hidx.
  - intros index Hfree. apply TokenAt_unassigned. intros token Hlook.
    destruct (Hfrom token index Hlook) as [Hempty|Hin]; [|done].
    simpl in Hempty. by rewrite lookup_empty in Hempty.
Qed.

End dictionary_facts.

(** ** The driver *)
Section driver_facts.
Context {Token : Type} `{Countable Token} {eT : Type} `{!ElemType eT}.
Implicit Types (output : arma.Mat eT) (dict : Dictionary Token).
Implicit Types (tokens : list Token) (batch : list (list Token)).

(** A sequence that fits in the columns from [col] on is encoded without
    error, and the matrix keeps its invariant and shape. *)
Lemma EncodeSequence_fits tokens row col output dict :
  arma.Mat_ok output → row < arma.n_rows output →
  col + length tokens ≤ arma.n_cols output →
  ∃ output' dict',
    EncodeSequence tokens row col output dict = inr (output', dict') ∧
    arma.Mat_ok output' ∧
    arma.n_rows output' = arma.n_rows output ∧
    arma.n_cols output' = arma.n_cols output.
Proof.
  revert col output dict.
  induction tokens as [|token tokens IH]; intros col output dict Hok Hrow Hfit; simpl in *.
  { by exists output, dict. }
  destruct (GetOrAssign token dict) as [index dict1].
  unfold DictionaryEncoding.Encode.
  rewrite at_put_in_bounds by (done || lia).
  set (output1 := arma.mkMat _ _ _).
  assert (arma.Mat_ok output1) as Hok1.
  { unfold arma.Mat_ok, arma.n_elem in *. simpl. by rewrite length_insert. }
  destruct (IH (S col) output1 dict1 Hok1) as (output' & dict' & Hrun & Hok' & Hr & Hc);
    [done|simpl; lia|].
  by exists output', dict'.
Qed.

(** A batch whose rows and sequences fit is encoded without error. *)
Lemma EncodeRows_fits batch row output dict :
  arma.Mat_ok output → row + length batch ≤ arma.n_rows output →
  Forall (λ tokens, length tokens ≤ arma.n_cols output) batch →
  ∃ output' dict',
    EncodeRows batch row output dict = inr (output', dict') ∧
    arma.Mat_ok output' ∧
    arma.n_rows output' = arma.n_rows output ∧
    arma.n_cols output' = arma.n_cols output.
Proof.
  revert row output dict.
  induction batch as [|tokens batch IH]; intros row output dict Hok Hrows Hcols; simpl in *.
  { by exists output, dict. }
  apply Forall_cons in Hcols as [Hlen Hcols].
  destruct (EncodeSequence_fits tokens row 0 output dict)
    as (output1 & dict1 & -> & Hok1 & Hr1 & Hc1); [done|lia|simpl; lia|].
  destruct (IH (S row) output1 dict1 Hok1) as (output' & dict' & Hrun & Hok' & Hr & Hc).
  - rewrite Hr1. lia.
  - by rewrite Hc1.
  - exists output', dict'. rewrite Hrun. repeat split; congruence.
Qed.

Lemma maxLength_ge batch tokens :
  tokens ∈ batch → length tokens ≤ maxLength batch.
Proof.
  intros Hin. unfold maxLength. apply max_list_elem_of_le.
  apply list_elem_of_fmap. by exists tokens.
Qed.

(** A session whose width is at least the longest sequence succeeds, with a
    matrix of one row per sequence and [colSize] columns. *)
Lemma StringEncoding_fits width dict batch :
  maxLength batch ≤ default (maxLength batch) width →
  ∃ output' dict',
    StringEncoding (eT := eT) width dict batch = inr (output', dict') ∧
    arma.Mat_ok output' ∧
    arma.n_rows output' = length batch ∧
    arma.n_cols output' = default (maxLength batch) width.
Proof.
  intros Hwidth. unfold StringEncoding. simpl.
  rewrite decide_False by lia.
  unfold DictionaryEncoding.InitMatrix.
  destruct (EncodeRows_fits batch 0
              (arma.zeros arma.empty (length batch) (default (maxLength batch) width)) dict)
    as (output' & dict' & Hrun & Hok & Hr & Hc).
  - apply zeros_ok.
  - simpl. lia.
  - apply Forall_forall. intros tokens Hin%maxLength_ge. simpl. lia.
  - by exists output', dict'.
Qed.

(** C2.  After [InitMatrix(output, datasetSize, colSize, mappingsSize)] the
    matrix has exactly [datasetSize] rows and [colSize] columns and every
    entry is 0, whatever [output] held and whatever the sizes are; hence
    encoding a batch of R sequences whose longest has length L yields an
    R x L matrix. *)
Theorem InitMatrix_zero_filled output datasetSize colSize mappingsSize :
  let output0 := DictionaryEncoding.InitMatrix output datasetSize colSize mappingsSize in
  arma.n_rows output0 = datasetSize ∧
  arma.n_cols output0 = colSize ∧
  arma.Mat_ok output0 ∧
  (∀ r c, r < datasetSize → c < colSize → arma.at_ output0 r c = Some elem_zero) ∧
  (∀ batch dict, ∃ output' dict',
     StringEncoding (eT := eT) None dict batch = inr (output', dict') ∧
     arma.n_rows output' = length batch ∧
     arma.n_cols output' = maxLength batch).
Proof.
  intros output0. split; [done|]. split; [done|].
  split; [apply zeros_ok|]. split.
  - intros r c Hr Hc. by apply zeros_at.
  - intros batch dict.
    destruct (StringEncoding_fits None dict batch) as (output' & dict' & Hrun & _ & Hr & Hc);
      [done|].
    by exists output', dict'.
Qed.

End driver_facts.

(** C6.  Encoding the sequences [["cat","dog"], ["dog"]] with the
    dictionary policy and [colSize = 2] assigns cat the index 0 and dog the
    index 1, in order of first appearance, and produces the 2 x 2 matrix
    whose row 0 is [0, 1] and whose row 1 is [1, 0], the second cell of row 1
    being the padding 0. *)
Theorem scenario_cat_dog :
  ∃ output dict,
    StringEncoding (Some 2) (Dictionary_new 0) [["cat"; "dog"]; ["dog"]]%string
      = inr (output, dict) ∧
    mapping dict !! "cat"%string = Some 0 ∧
    mapping dict !! "dog"%string = Some 1 ∧
    Size dict = 2 ∧
    arma.n_rows output = 2 ∧ arma.n_cols output = 2 ∧
    arma.rows output = Some [[0; 1]; [1; 0]] ∧
    arma.at_ output 1 1 = Some (elem_zero (eT := nat)).
Proof.
  eexists _, _. split; [vm_compute; reflexivity|].
  repeat split; by vm_compute.
Qed.

(** ** The properties at concrete inputs *)

(** C1 on a 2 x 3 matrix of [size_t] cells: the cell reads the index 7
    itself. *)
Lemma Encode_stores_index_witness :
  arma.Mat_ok (arma.zeros (eT := nat) arma.empty 2 3) ∧
  ∃ output',
    DictionaryEncoding.Encode 7 (arma.zeros arma.empty 2 3) 1 2 = Some output' ∧
    arma.at_ output' 1 2 = Some 7.
Proof.
  split; [reflexivity|].
  refine (Encode_stores_index (eT := nat) (arma.zeros arma.empty 2 3) 7 1 2 _ _ _);
    [reflexivity | simpl; lia | simpl; lia].
Defined.

(** C8 as stated, for every coordinate pair, does not hold.  [at] checks no
    bounds: on the 2 x 2 zero matrix, whose buffer is [0; 0; 0; 0], the call
    [Encode(7, output, 2, 0)] writes [mem[2 + 0 * 2]], which is the cell
    [(0, 1)], an entry other than [(2, 0)]. *)
Lemma Encode_frame_fails_outside_matrix :
  ∃ output',
    DictionaryEncoding.Encode 7 (arma.zeros (eT := nat) arma.empty 2 2) 2 0
      = Some output' ∧
    arma.mem output' = [0; 0; 7; 0] ∧
    ¬ (∀ r c, r < 2 → c < 2 → (r, c) ≠ (2, 0) →
         arma.at_ output' r c = arma.at_ (arma.zeros arma.empty 2 2) r c).
Proof.
  eexists. split; [reflexivity|]. split; [reflexivity|].
  intros Hframe.
  assert (Some 7 = Some 0) as Habs; [|discriminate Habs].
  apply (Hframe 0 1); [lia|lia|]. intros Heq. discriminate Heq.
Qed.

(** C8 on a 2 x 2 matrix with four different entries. *)
Lemma Encode_frame_witness :
  arma.Mat_ok (arma.mkMat 2 2 [1; 2; 3; 4]) ∧
  ∃ output',
    DictionaryEncoding.Encode 9 (arma.mkMat 2 2 [1; 2; 3; 4]) 1 0 = Some output' ∧
    arma.n_rows output' = 2 ∧ arma.n_cols output' = 2 ∧
    ∀ r c, r < 2 → c < 2 → (r, c) ≠ (1, 0) →
      arma.at_ output' r c = arma.at_ (arma.mkMat 2 2 [1; 2; 3; 4]) r c.
Proof.
  split; [reflexivity|].
  refine (Encode_frame (eT := nat) (arma.mkMat 2 2 [1; 2; 3; 4]) 9 1 0 _ _ _);
    [reflexivity | simpl; lia | simpl; lia].
Defined.

(** C3 on the calls of the batch [["cat","dog","cat"], ["dog"]] in a 2 x 3
    matrix: row 0 has length 3 and row 1 length 1. *)
Lemma padding_stays_zero_witness :
  ∃ output',
    DictionaryEncoding.EncodeAll [(5, 0, 0); (6, 0, 1); (5, 0, 2); (6, 1, 0)]
      (DictionaryEncoding.InitMatrix (eT := nat) arma.empty 2 3 0) = Some output' ∧
    ∀ r c, r < 2 → (if decide (r = 0) then 3 else 1) ≤ c → c < 3 →
      arma.at_ output' r c = Some 0.
Proof.
  refine (padding_stays_zero (eT := nat) arma.empty 2 3 0
            (λ r, if decide (r = 0) then 3 else 1) _ _ _).
  - intros r Hr. case_decide; lia.
  - repeat constructor; simpl; lia.
Defined.


(** C7 on the session cat, dog, cat with base 0. *)
Lemma TokenAt_roundtrip_witness :
  let session := GetOrAssignAll ["cat"; "dog"; "cat"]%string (Dictionary_new 0) in
  session.1 = [0; 1; 0] ∧
  TokenAt 0 session.2 = inr "cat"%string ∧
  TokenAt 1 session.2 = inr "dog"%string ∧
  TokenAt 2 session.2 = inl NotFoundError.
Proof.
  intros session.
  destruct (TokenAt_roundtrip 0 ["cat"; "dog"; "cat"]%string session.1 session.2)
    as [Hback Hnone]; [apply surjective_pairing|].
  split; [by vm_compute|].
  split; [by apply (Hback 0)|].
  split; [by apply (Hback 1)|].
  apply Hnone. vm_compute. intros Hin.
  repeat (apply elem_of_cons in Hin as [Heq|Hin]; [discriminate Heq|]).
  by apply elem_of_nil in Hin.
Defined.

(** ** More on [Encode]: composition, no-ops and calls outside the matrix *)
Section policy_more.
Context {eT : Type} `{!ElemType eT}.
Implicit Types (output : arma.Mat eT) (calls : list (size_t * size_t * size_t)).


(** X2.  After a run of [Encode] calls that stay inside the matrix, every
    cell holds the index of the last call that named it, and the cells no
    call named hold what they held before the run. *)
Theorem EncodeAll_last_written calls output :
  arma.Mat_ok output → Forall (DictionaryEncoding.call_in_bounds output) calls →
  ∃ output',
    DictionaryEncoding.EncodeAll calls output = Some output' ∧
    ∀ row col, row < arma.n_rows output → col < arma.n_cols output →
      arma.at_ output' row col =
        match last_written calls row col with
        | Some ele => Some (elem_of_size_t ele)
        | None => arma.at_ output row col
        end.
Proof.
  revert output. induction calls as [|[[ele r] c] calls IH]; intros output Hok Hall.
  { by exists output. }
  apply Forall_cons in Hall as [[Hr Hc] Hall]. simpl in Hr, Hc.
  pose proof (at_put_in_bounds output r c (elem_of_size_t ele) Hok Hr Hc) as Hput.
  destruct (at_put_dims _ _ _ _ _ Hput) as [Hrows Hcols].
  destruct (IH _ (at_put_ok _ _ _ _ _ Hok Hput)) as (output' & Hrun & Hcells).
  { eapply Forall_impl; [exact Hall|]. unfold DictionaryEncoding.call_in_bounds.
    intros call. by rewrite Hrows, Hcols. }
  exists output'. simpl. unfold DictionaryEncoding.Encode. rewrite Hput. simpl.
  split; [exact Hrun|]. intros row col Hrow Hcol.
  rewrite Hcells by congruence.
  destruct (last_written calls row col) as [ele'|]; [done|].
  case_decide as Hcell.
  - injection Hcell as <- <-. by eapply at_put_at_eq.
  - eapply at_put_at_ne; [exact Hput|done|done|]. congruence.
Qed.

(** X3.  An [Encode] call returns the matrix unchanged exactly when the
    cell it addresses already holds the index it writes. *)
Theorem Encode_unchanged_iff output ele row col :
  DictionaryEncoding.Encode ele output row col = Some output ↔
  arma.at_ output row col = Some (elem_of_size_t ele).
Proof.
  destruct output as [rows cols mem].
  unfold DictionaryEncoding.Encode, arma.at_put, arma.at_, arma.at_index. simpl.
  split.
  - case_decide as Hlt; [|done]. intros [= Hmem].
    rewrite <- Hmem. by apply list_lookup_insert_eq.
  - intros Hlook. rewrite decide_True by (by eapply lookup_lt_Some).
    by rewrite list_insert_id.
Qed.

(** X4.  In a freshly initialised matrix, encoding the index 0 at a cell
    changes nothing: a stored index 0 and the padding are the same matrix.
    (For element types whose conversion sends the index 0 to the zero that
    [zeros] fills with.) *)
Theorem Encode_zero_is_padding output datasetSize colSize mappingsSize row col :
  elem_of_size_t 0 = elem_zero (eT := eT) →
  row < datasetSize → col < colSize →
  DictionaryEncoding.Encode 0
    (DictionaryEncoding.InitMatrix output datasetSize colSize mappingsSize) row col
  = Some (DictionaryEncoding.InitMatrix output datasetSize colSize mappingsSize).
Proof.
  intros Hzero Hrow Hcol. unfold DictionaryEncoding.InitMatrix.
  pose proof (zeros_at output datasetSize colSize row col Hrow Hcol) as Hat.
  unfold arma.at_ in Hat.
  unfold DictionaryEncoding.Encode, arma.at_put.
  rewrite decide_True by (by eapply lookup_lt_Some).
  rewrite list_insert_id by (by rewrite Hzero). done.
Qed.



End policy_more.

(** ** Softplus *)
Section loop_facts.
Context {A B : Type} (f : A → B).

(** The loop [for (i = ...; i < x.n_elem; i++) y(i) = f(x(i))] on a [y] of
    the size of [x]: no access leaves the matrices, and once the first [i]
    elements are done the remaining iterations complete [y] to [f] of every
    element of [x]. *)
Lemma for_from_elementwise (x : arma.Mat A) count i (y : arma.Mat B) :
  arma.Mat_ok x → arma.n_elem y = arma.n_elem x →
  length (arma.mem y) = arma.n_elem x →
  i + count = arma.n_elem x →
  take i (arma.mem y) = f <$> take i (arma.mem x) →
  for_from count i (λ i y, xi ← Mat_elem x i; Mat_elem_put y i (f xi)) y
  = Some (arma.mkMat (arma.n_rows y) (arma.n_cols y) (f <$> arma.mem x)).
Proof.
  intros Hx. revert i y.
  induction count as [|count IH]; intros i y Hn Hlen Hi Htake; cbn [for_from].
  - f_equal. destruct y as [rows cols mem]. simpl in *. f_equal.
    rewrite !take_ge in Htake by (unfold arma.Mat_ok in Hx; lia). done.
  - assert (i < length (arma.mem x)) as Hlt by (unfold arma.Mat_ok in Hx; lia).
    destruct (lookup_lt_is_Some_2 _ _ Hlt) as [xi Hxi].
    assert (Mat_elem x i = Some xi) as ->.
    { unfold Mat_elem. by rewrite decide_True by lia. }
    assert (Mat_elem_put y i (f xi) =
            Some (arma.mkMat (arma.n_rows y) (arma.n_cols y)
                    (<[i := f xi]> (arma.mem y)))) as Hput.
    { unfold Mat_elem_put. by rewrite decide_True by lia. }
    cbn [mbind option_bind]. rewrite Hput. cbn [mbind option_bind].
    rewrite IH; simpl; [done|done|by rewrite length_insert|lia|].
    rewrite (take_S_r _ _ _ Hxi), fmap_app. simpl.
    erewrite take_S_r; [|apply list_lookup_insert_eq; lia].
    by rewrite take_insert_ge, Htake.
Qed.

End loop_facts.

Section softplus_facts.
Variables (exp log trunc_exp trunc_log : float → float).

(** X7.  The matrix overload of [Fn] succeeds on every matrix [x]: no
    access is out of bounds, and the result has the shape of [x] and holds,
    element by element, the scalar [Fn] of [x].  It depends neither on what
    [y] held before nor on what [set_size] leaves in the buffer. *)
Theorem Fn_mat_elementwise x y threshold fresh :
  arma.Mat_ok x →
  SoftplusFunction.Fn_mat exp log x y threshold fresh =
    Some (arma.mkMat (arma.n_rows x) (arma.n_cols x)
            ((λ xi, SoftplusFunction.Fn exp log xi threshold) <$> arma.mem x)).
Proof.
  intros Hx. unfold SoftplusFunction.Fn_mat, for_loop.
  rewrite (for_from_elementwise (λ xi, SoftplusFunction.Fn exp log xi threshold));
    unfold Mat_set_size, arma.n_elem; simpl; try done.
  by rewrite length_fmap, length_seq.
Qed.

(** X8.  The matrix overload of [Inv] succeeds on every matrix [y]: no
    access is out of bounds, and the result has the shape of [y] and holds,
    element by element, the scalar [Inv] of [y], whatever [x] held before and
    whatever [set_size] leaves in the buffer. *)
Theorem Inv_mat_elementwise y x fresh :
  arma.Mat_ok y →
  SoftplusFunction.Inv_mat trunc_exp trunc_log y x fresh =
    Some (arma.mkMat (arma.n_rows y) (arma.n_cols y)
            (SoftplusFunction.Inv trunc_exp trunc_log <$> arma.mem y)).
Proof.
  intros Hy. unfold SoftplusFunction.Inv_mat, for_loop.
  rewrite (for_from_elementwise (SoftplusFunction.Inv trunc_exp trunc_log));
    unfold Mat_set_size, arma.n_elem; simpl; try done.
  by rewrite length_fmap, length_seq.
Qed.

(** X9.  The matrix overload of [Deriv] agrees with the scalar one: its
    result has the shape of [y] and holds, element by element, the scalar
    [Deriv] of [y], whatever [x] held before. *)
Theorem Deriv_mat_elementwise y x :
  SoftplusFunction.Deriv_mat exp y x =
    arma.mkMat (arma.n_rows y) (arma.n_cols y)
      (SoftplusFunction.Deriv exp <$> arma.mem y).
Proof.
  unfold SoftplusFunction.Deriv_mat, Mat_map. simpl. f_equal.
  rewrite <- !list_fmap_compose. done.
Qed.

(** X10.  [Inv] returns 0 on every input that is not greater than 0: on
    the negative numbers, on both zeros and on NaN (so a NaN does not
    propagate), whatever [trunc_exp] and [trunc_log] compute. *)
Theorem Inv_not_positive y :
  (y <=? 0)%float = true ∨ PrimFloat.is_nan y = true →
  SoftplusFunction.Inv trunc_exp trunc_log y = 0%float.
Proof.
  intros Hy. unfold SoftplusFunction.Inv.
  assert ((0 <? y)%float = false) as ->; [|done].
  rewrite ltb_spec.
  unfold PrimFloat.is_nan in Hy. rewrite leb_spec, eqb_spec in Hy.
  change (Prim2SF 0) with (S754_zero false) in *.
  destruct (Prim2SF y) as [s|s| |s m e]; try destruct s; simpl in *; try done.
  all: destruct Hy as [Hy|Hy]; try done.
  unfold SFeqb, SFcompare in Hy.
  by rewrite Z.compare_refl, Pos.compare_cont_refl in Hy.
Qed.

End softplus_facts.

(** ** The further properties at concrete inputs *)


(** X2 on a run that writes the cell [(0, 0)] twice. *)
Lemma EncodeAll_last_written_witness :
  ∃ output',
    DictionaryEncoding.EncodeAll [(5, 0, 0); (6, 0, 1); (7, 0, 0)]
      (arma.zeros (eT := nat) arma.empty 2 2) = Some output' ∧
    ∀ row col, row < 2 → col < 2 →
      arma.at_ output' row col =
        match last_written [(5, 0, 0); (6, 0, 1); (7, 0, 0)] row col with
        | Some ele => Some ele
        | None => arma.at_ (arma.zeros (eT := nat) arma.empty 2 2) row col
        end.
Proof.
  refine (EncodeAll_last_written (eT := nat) [(5, 0, 0); (6, 0, 1); (7, 0, 0)]
            (arma.zeros arma.empty 2 2) _ _).
  - reflexivity.
  - repeat constructor; simpl; lia.
Defined.

(** X4 on a 2 x 3 matrix of [size_t] cells. *)
Lemma Encode_zero_is_padding_witness :
  DictionaryEncoding.Encode 0
    (DictionaryEncoding.InitMatrix (eT := nat) arma.empty 2 3 0) 1 2
  = Some (DictionaryEncoding.InitMatrix arma.empty 2 3 0).
Proof.
  refine (Encode_zero_is_padding (eT := nat) arma.empty 2 3 0 1 2 _ _ _);
    [reflexivity | lia | lia].
Defined.



(** X7 on a 1 x 2 matrix above the default threshold, where [Fn] calls
    neither [exp] nor [log]: they are set to functions without a value. *)
Lemma Fn_mat_elementwise_witness :
  SoftplusFunction.Fn_mat (λ _, nan) (λ _, nan)
    (arma.mkMat 1 2 [41; 50]%float) arma.empty
    SoftplusFunction.default_threshold (λ _, 0%float)
  = Some (arma.mkMat 1 2 [41; 50]%float).
Proof.
  refine (Fn_mat_elementwise (λ _, nan) (λ _, nan)
            (arma.mkMat 1 2 [41; 50]%float) arma.empty
            SoftplusFunction.default_threshold (λ _, 0%float) _).
  reflexivity.
Defined.

(** X8 on a 2 x 1 matrix of inputs that are not positive, where [Inv]
    calls neither [trunc_exp] nor [trunc_log]. *)
Lemma Inv_mat_elementwise_witness :
  SoftplusFunction.Inv_mat (λ _, nan) (λ _, nan)
    (arma.mkMat 2 1 [(-1)%float; 0%float]) arma.empty (λ _, 1%float)
  = Some (arma.mkMat 2 1 [0; 0]%float).
Proof.
  refine (Inv_mat_elementwise (λ _, nan) (λ _, nan)
            (arma.mkMat 2 1 [(-1)%float; 0%float]) arma.empty (λ _, 1%float) _).
  reflexivity.
Defined.

(** X10 on NaN. *)
Lemma Inv_not_positive_witness :
  SoftplusFunction.Inv (λ _, nan) (λ _, nan) nan = 0%float.
Proof.
  refine (Inv_not_positive (λ _, nan) (λ _, nan) nan _).
  right. reflexivity.
Defined.

(** ** Overload selection of [GetPrintableParam] *)

(** X11.  For every parameter type at least one of the five declarations
    is enabled, and the call selects a declaration exactly for the types of
    one kind: the matrix overload for an Armadillo type (serializable or
    not), the vector overload for a vector, the mapped overload for the
    tuple, the serializable overload for a serializable class that is no
    Armadillo type, and the plain overload for every other type. *)
Theorem GetPrintableParam_resolution (T : GetPrintableParam.TypeTraits) :
  GetPrintableParam.candidates T ≠ [] ∧
  (is_Some (GetPrintableParam.resolve T) ↔ GetPrintableParam.one_kind T = true) ∧
  (GetPrintableParam.one_kind T = true →
   GetPrintableParam.resolve T = Some
     (if GetPrintableParam.is_arma_type T then GetPrintableParam.PrintMatrix
      else if GetPrintableParam.IsStdVector T then GetPrintableParam.PrintVector
      else if GetPrintableParam.is_DatasetInfo_mat_tuple T then GetPrintableParam.PrintMapped
      else if GetPrintableParam.HasSerialize T then GetPrintableParam.PrintSerializable
      else GetPrintableParam.PrintOption)).
Proof.
  destruct T as [[] [] [] []]; vm_compute;
    (split; [discriminate|]); (split; [|try done]);
    split; try done; try (by intros [o Ho]); by eexists.
Qed.
